(** * Priority-level annotation accessor (package [objectpriority])

    A shallow embedding of [pkg/object/objectpriority/annotation.go] and of
    the library routines it calls, followed by the properties of its four
    operations: [GetStaticPriority], [HasAnnotation], [ReadAnnotation] and
    [WriteAnnotation].

    Conventions.
    - A Go [uint64] is a [Z] in [0, 2^64); every arithmetic step that can
      wrap in Go is written with an explicit reduction modulo [2^64].
    - A Go [string] is a sequence of bytes, here a [string] of [ascii].
    - A possibly-nil pointer [*T] is an [option T]; a function that mutates
      its pointee returns the pointee after the call.
    - A Go [error] value is an [option error], [None] being [nil].
    - A Go [map[string]string] that may be nil is an
      [option (gmap string string)], [None] being the nil map. *)

From Stdlib Require Import ZArith String Ascii List Lia.
From stdpp Require Import base option gmap strings.

Local Open Scope Z_scope.

(** ** Machine integers and bytes *)

Definition maxUint64 : Z := 18446744073709551615.

(** Reduction of an arithmetic result to [uint64]. *)
Definition uint64 (x : Z) : Z := x mod 18446744073709551616.

(** Conversion of an integer to [byte]. *)
Definition byte (x : Z) : Z := x mod 256.

Definition is_uint64 (x : Z) : Prop := 0 <= x <= maxUint64.

(** The numeric value of a character of a string, and back. *)
Definition byte_of_ascii (c : ascii) : Z := Z.of_N (N_of_ascii c).
Definition ascii_of_byte (b : Z) : ascii := ascii_of_N (Z.to_N b).

(** ** Errors *)

(** The error values the package can return.  [errorString] is what
    [errors.New] and [fmt.Errorf] build, [NumError] is [*strconv.NumError]. *)
Inductive error : Type :=
  | errorString (s : string)
  | NumError (Func Num : string) (Err : error)
  (** Modelled from the spec: [object.InvalidAnnotationError] is declared in
      [pkg/object], outside the files embedded here.  It is the typed
      "invalid annotation" error carrying the annotation key and an
      underlying cause. *)
  | InvalidAnnotationError (Annotation : string) (Cause : error).

Module errors.
Definition New (text : string) : error := errorString text.
End errors.

(** ** [strconv.ParseUint], at base 10 and bit size 64 *)

Module strconv.

Definition ErrRange : error := errors.New "value out of range".
Definition ErrSyntax : error := errors.New "invalid syntax".

Definition fnParseUint : string := "ParseUint".

Definition syntaxError (fn str : string) : error := NumError fn str ErrSyntax.
Definition rangeError (fn str : string) : error := NumError fn str ErrRange.

(** The two arguments the package passes. *)
Definition base : Z := 10.
Definition bitSize : Z := 64.

(** [cutoff] is the smallest number such that [cutoff * base > maxUint64]. *)
Definition cutoff : Z := maxUint64 / 10 + 1.
Definition maxVal : Z := uint64 (Z.shiftl 1 bitSize - 1).

(** [lower(c)] is [c | ('x' - 'X')]. *)
Definition lower (c : Z) : Z := Z.lor c 32.

(** The digit a byte stands for, if any: [Some d] after the [switch] of the
    loop body, [None] when the [default] case returns a syntax error. *)
Definition digit_of (c : Z) : option Z :=
  if (48 <=? c) && (c <=? 57) then Some (byte (c - 48))
  else if (97 <=? lower c) && (lower c <=? 122) then Some (byte (lower c - 97 + 10))
  else None.

(** The loop [for _, c := range []byte(s)], started with accumulator [n].
    The case [c == '_' && base0] cannot be taken: the base is not 0. *)
Fixpoint parseLoop (s0 : string) (n : Z) (s : string) : Z * option error :=
  match s with
  | EmptyString => (n, None)
  | String c s' =>
      match digit_of (byte_of_ascii c) with
      | None => (0, Some (syntaxError fnParseUint s0))
      | Some d =>
          if base <=? d then (0, Some (syntaxError fnParseUint s0))
          else if cutoff <=? n then (maxVal, Some (rangeError fnParseUint s0))
          else
            let n := uint64 (n * base) in
            let n1 := uint64 (n + d) in
            if (n1 <? n) || (maxVal <? n1)
            then (maxVal, Some (rangeError fnParseUint s0))
            else parseLoop s0 n1 s'
      end
  end.

(** [strconv.ParseUint(s, 10, 64)]. *)
Definition ParseUint (s : string) : Z * option error :=
  match s with
  | EmptyString => (0, Some (syntaxError fnParseUint s))
  | _ => parseLoop s 0 s
  end.

End strconv.

(** ** [fmt]: the verb [%d] on unsigned operands *)

Module fmt.

Definition ldigits : string := "0123456789abcdefx".

(** [digits[u]]. *)
Definition digit_at (u : Z) : ascii :=
  match String.get (Z.to_nat u) ldigits with
  | Some c => c
  | None => "0"%char
  end.

(** The base-10 loop of [fmtInteger], which fills its buffer from the
    right: [i] counts the free bytes left of the digits written so far,
    [buf] holds those digits.
<<
    for u >= 10 { i--; next := u / 10; buf[i] = byte('0' + u - next*10); u = next }
    i--; buf[i] = digits[u]
>>
    The buffer never runs out for a [uint64] (see [fmtInteger_denotes]). *)
Fixpoint fmtDigits (i : nat) (u : Z) (buf : string) : string :=
  match i with
  | O => buf
  | S i =>
      if 10 <=? u then
        let next := u / 10 in
        fmtDigits i next (String (ascii_of_byte (byte (uint64 (48 + u - next * 10)))) buf)
      else String (digit_at u) buf
  end.

(** Length of the integer buffer of a formatter, [intbuf [68]byte]. *)
Definition intbufLen : nat := 68.

(** [%d] applied to an unsigned integer, without flags, width or
    precision. *)
Definition fmtInteger (u : Z) : string := fmtDigits intbufLen u "".

(** [fmt.Sprintf(format, args...)] for the formats of this package: plain
    text and the verb [%d], with unsigned integer operands.  A verb with
    no operand left prints as [%!d(MISSING)]. *)
Fixpoint Sprintf (format : string) (args : list Z) : string :=
  match format with
  | EmptyString => EmptyString
  | String "%" (String "d" rest) =>
      match args with
      | a :: args => fmtInteger a ++ Sprintf rest args
      | [] => "%!d(MISSING)" ++ Sprintf rest []
      end
  | String c rest => String c (Sprintf rest args)
  end%string.

Definition Errorf (format : string) (args : list Z) : error :=
  errorString (Sprintf format args).

End fmt.

(** ** [schema]: group, version and kind of an object *)

Module schema.

Record GroupKind : Type := mkGroupKind { gkGroup : string; gkKind : string }.

Record GroupVersionKind : Type :=
  mkGroupVersionKind { Group : string; Version : string; Kind : string }.

(** The method [gvk.GroupKind()]. *)
Definition GroupKindOf (gvk : GroupVersionKind) : GroupKind :=
  {| gkGroup := Group gvk; gkKind := Kind gvk |}.

#[global] Instance GroupKind_eq_dec : EqDecision GroupKind.
Proof. solve_decision. Defined.

#[global] Instance GroupKind_countable : Countable GroupKind.
Proof.
  refine (inj_countable' (fun gk => (gkGroup gk, gkKind gk))
                         (fun p => mkGroupKind p.1 p.2) _).
  intros []; reflexivity.
Defined.

End schema.

(** ** [klog]: leveled trace output *)

Module klog.

(** One call [klog.V(level).Infof(format, args...)], kept unrendered. *)
Record entry : Type := mkEntry { level : Z; format : string; args : list string }.

(** A computation that may emit trace entries next to its result. *)
Definition traced (A : Type) : Type := A * list entry.

Definition ret {A} (a : A) : traced A := (a, []).

Definition bind {A B} (m : traced A) (k : A -> traced B) : traced B :=
  let '(b, out) := k m.1 in (b, m.2 ++ out).

Definition Infof (v : Z) (format : string) (args : list string) : traced unit :=
  (tt, [mkEntry v format args]).

End klog.

Notation "m ;;; k" := (klog.bind m (fun _ => k))
  (at level 100, right associativity, only parsing).

(** ** [unstructured.Unstructured]

    The package reaches an object only through five of its methods:
    [GroupVersionKind], [GetNamespace], [GetName], [GetAnnotations] and
    [SetAnnotations].  The object is therefore the record of what these
    methods read and write.  [GetAnnotations] hands out a map of its own
    (nil when the object has no annotations), and [SetAnnotations] stores the
    map it is given, a nil map removing the annotations. *)

Module unstructured.

Record Unstructured : Type := mkUnstructured {
  groupVersionKind : schema.GroupVersionKind;
  namespace : string;
  name : string;
  annotations : option (gmap string string)
}.

Definition GroupVersionKind (u : Unstructured) : schema.GroupVersionKind :=
  groupVersionKind u.
Definition GetNamespace (u : Unstructured) : string := namespace u.
Definition GetName (u : Unstructured) : string := name u.
Definition GetAnnotations (u : Unstructured) : option (gmap string string) :=
  annotations u.
Definition SetAnnotations (u : Unstructured) (a : option (gmap string string))
  : Unstructured :=
  {| groupVersionKind := groupVersionKind u;
     namespace := namespace u;
     name := name u;
     annotations := a |}.

End unstructured.

(** ** Go map reads and writes *)

(** [v, found := m[k]]: a nil map reads as an empty one, a missing key as the
    zero value. *)
Definition index {K} `{Countable K} {V} (zero : V) (m : option (gmap K V)) (k : K)
  : V * bool :=
  match m with
  | Some m => match m !! k with
              | Some v => (v, true)
              | None => (zero, false)
              end
  | None => (zero, false)
  end.

(** ** The package *)

Module objectpriority.
Import schema unstructured.

Definition Annotation : string := "config.kubernetes.io/priority-level".
Definition MaxPriority : Z := 1000000000.

Definition staticPriorities : gmap GroupKind Z :=
  <[ mkGroupKind "" "Namespace" := uint64 (MaxPriority + 1) ]>
  (<[ mkGroupKind "apiextensions.k8s.io" "CustomResourceDefinition"
        := uint64 (MaxPriority + 1) ]> ∅).

(** [GetStaticPriority] returns the static priority for the object if it
    exists: the priority value and whether one was found. *)
Definition GetStaticPriority (u : option Unstructured) : Z * bool :=
  match u with
  | None => (0, false)
  | Some u =>
      let gvk := GroupVersionKind u in
      let '(pri, found) := index 0 (Some staticPriorities) (GroupKindOf gvk) in
      (pri, found)
  end.

(** [HasAnnotation] returns true if the priority-level annotation is
    present, false if not. *)
Definition HasAnnotation (u : option Unstructured) : bool :=
  match u with
  | None => false
  | Some u =>
      let '(_, found) := index EmptyString (GetAnnotations u) Annotation in
      found
  end.

(** [ReadAnnotation] reads the priority-level annotation and parses the
    priority level into an unsigned integer. *)
Definition ReadAnnotation (u : option Unstructured)
  : klog.traced (Z * option error) :=
  match u with
  | None => klog.ret (0, None)
  | Some u =>
      let '(priorityStr, found) :=
        index EmptyString (GetAnnotations u) Annotation in
      if negb found then klog.ret (0, None)
      else
        klog.Infof 5 "priority-level annotation found for %s/%s: %q"
                   [GetNamespace u; GetName u; priorityStr] ;;;
        let '(priority, err) := strconv.ParseUint priorityStr in
        match err with
        | Some err =>
            klog.ret (0, Some (InvalidAnnotationError Annotation err))
        | None =>
            if MaxPriority <? priority then
              klog.ret
                (0, Some (InvalidAnnotationError Annotation
                            (fmt.Errorf
                               "priority higher than the maximum allowed: %d"
                               [MaxPriority])))
            else klog.ret (priority, None)
        end
  end.

(** [WriteAnnotation] updates the supplied object to add the
    priority-level annotation.  The first component is the object behind
    the pointer after the call. *)
Definition WriteAnnotation (obj : option Unstructured) (priority : Z)
  : option Unstructured * option error :=
  match obj with
  | None => (None, Some (errors.New "object is nil"))
  | Some obj =>
      let a := GetAnnotations obj in
      let a := match a with
               | None => ∅
               | Some a => a
               end in
      let a := <[ Annotation := fmt.Sprintf "%d" [priority] ]> a in
      (Some (SetAnnotations obj (Some a)), None)
  end.

End objectpriority.

(** ** The objects of [annotation_test.go] *)

Module fixtures.
Import schema unstructured objectpriority.

Definition configMap (a : option (gmap string string)) : Unstructured :=
  {| groupVersionKind := mkGroupVersionKind "" "v1" "ConfigMap";
     namespace := "unused"; name := "unused"; annotations := a |}.

Definition cm : Unstructured := configMap (Some {[ Annotation := "1"%string ]}).

Definition ns : Unstructured :=
  {| groupVersionKind := mkGroupVersionKind "" "v1" "Namespace";
     namespace := ""; name := "unused"; annotations := None |}.

Definition crd : Unstructured :=
  {| groupVersionKind :=
       mkGroupVersionKind "apiextensions.k8s.io" "v1" "CustomResourceDefinition";
     namespace := ""; name := "unused"; annotations := None |}.

Definition noAnnotations : Unstructured := configMap None.

Definition negativeAnnotation : Unstructured :=
  configMap (Some {[ Annotation := "-1"%string ]}).

Definition tooLargeAnnotation : Unstructured :=
  configMap (Some {[ Annotation := "1000000001"%string ]}).

End fixtures.

(** ** Decimal numerals, as the annotation's value encoding describes them

    These definitions do not come from the code: they say what a string of
    base-10 ASCII digits is and which number it denotes, so that the parser
    and the formatter can be compared against them. *)

Module numeral.

Definition is_digit (c : ascii) : bool :=
  (48 <=? byte_of_ascii c) && (byte_of_ascii c <=? 57).

Fixpoint all_digits (s : string) : bool :=
  match s with
  | EmptyString => true
  | String c s' => is_digit c && all_digits s'
  end.

(** Horner evaluation of the digits of [s], continuing from [n]. *)
Fixpoint value_from (n : Z) (s : string) : Z :=
  match s with
  | EmptyString => n
  | String c s' => value_from (10 * n + (byte_of_ascii c - 48)) s'
  end.

Definition value (s : string) : Z := value_from 0 s.

(** [s] is a nonempty string of decimal digits and nothing else. *)
Definition digit_string (s : string) : Prop :=
  s <> EmptyString /\ all_digits s = true.

(** [s] is a decimal numeral denoting [v]. *)
Definition denotes (s : string) (v : Z) : Prop :=
  digit_string s /\ value s = v.

(** A numeral is canonical when it is the single digit 0 or does not start
    with the digit 0. *)
Definition canonical (s : string) : Prop :=
  s = "0"%string \/ exists c s', s = String c s' /\ c <> "0"%char.

(** Characters that a signed or grouped number may contain and that are no
    digits: signs, blanks and separators. *)
Definition signs_blanks_separators : list ascii :=
  ["+"; "-"; " "; "009"; "010"; "013"; ","; "_"; "."; "'"]%char.

(** [c] occurs in [s]. *)
Fixpoint occurs (c : ascii) (s : string) : Prop :=
  match s with
  | EmptyString => False
  | String c' s' => c = c' \/ occurs c s'
  end.

End numeral.

(** ** Vocabulary of the statements *)

(** The entry of the object's annotation map under key [k]: none when the
    object has no annotation map or the map lacks the key. *)
Definition annotation_at (u : unstructured.Unstructured) (k : string)
  : option string :=
  match unstructured.GetAnnotations u with
  | Some m => m !! k
  | None => None
  end.

(** The object a pointer refers to after two calls
    [WriteAnnotation(obj, p)] in a row, and after the first of them. *)
Definition written_once (obj : unstructured.Unstructured) (p : Z)
  : option unstructured.Unstructured :=
  (objectpriority.WriteAnnotation (Some obj) p).1.

Definition written_twice (obj : unstructured.Unstructured) (p : Z)
  : option unstructured.Unstructured :=
  (objectpriority.WriteAnnotation (written_once obj p) p).1.

(** * Properties *)

(** ** Machine arithmetic *)

Lemma uint64_small (x : Z) : 0 <= x <= maxUint64 -> uint64 x = x.
Proof. unfold uint64, maxUint64. intros Hx. apply Z.mod_small. lia. Qed.

Lemma uint64_wrap (x : Z) :
  maxUint64 < x <= 2 * maxUint64 -> uint64 x = x - (maxUint64 + 1).
Proof.
  unfold uint64, maxUint64. intros Hx. symmetry.
  apply Z.mod_unique with (q := 1); lia.
Qed.

Lemma byte_small (x : Z) : 0 <= x < 256 -> byte x = x.
Proof. unfold byte. apply Z.mod_small. Qed.

Lemma byte_of_ascii_range (c : ascii) : 0 <= byte_of_ascii c < 256.
Proof.
  unfold byte_of_ascii. pose proof (N_ascii_bounded c) as Hc. lia.
Qed.

Lemma byte_of_ascii_of_byte (b : Z) :
  0 <= b < 256 -> byte_of_ascii (ascii_of_byte b) = b.
Proof.
  intros Hb. unfold byte_of_ascii, ascii_of_byte.
  rewrite N_ascii_embedding by lia. lia.
Qed.

Lemma maxVal_eq : strconv.maxVal = maxUint64.
Proof. reflexivity. Qed.

Lemma cutoff_eq : strconv.cutoff = 1844674407370955162.
Proof. reflexivity. Qed.

(** ** The parser against decimal numerals *)

Section ParseUint.
Import strconv numeral.

(** A digit character stands for its distance from the character 0. *)
Lemma digit_of_digit (c : ascii) :
  is_digit c = true ->
  digit_of (byte_of_ascii c) = Some (byte_of_ascii c - 48)
  /\ 0 <= byte_of_ascii c - 48 <= 9.
Proof.
  unfold is_digit, digit_of. intros Hc. rewrite Hc.
  apply andb_prop in Hc as [Hlo Hhi].
  apply Z.leb_le in Hlo, Hhi.
  rewrite byte_small by lia. split; [reflexivity | lia].
Qed.

(** Any other character is either no digit at all or a letter, whose
    value is at least the base. *)
Lemma digit_of_other (c : ascii) :
  is_digit c = false ->
  match digit_of (byte_of_ascii c) with
  | Some d => base <= d
  | None => True
  end.
Proof.
  unfold is_digit, digit_of. intros Hc. rewrite Hc.
  destruct ((97 <=? lower (byte_of_ascii c)) && (lower (byte_of_ascii c) <=? 122))
    eqn:Hletter; [| exact I].
  apply andb_prop in Hletter as [Hlo Hhi].
  apply Z.leb_le in Hlo, Hhi.
  rewrite byte_small by lia. unfold base. lia.
Qed.

Lemma parseLoop_other (s0 : string) (n : Z) (c : ascii) (s : string) :
  is_digit c = false ->
  parseLoop s0 n (String c s) = (0, Some (syntaxError fnParseUint s0)).
Proof.
  intros Hc. apply digit_of_other in Hc. simpl.
  destruct (digit_of (byte_of_ascii c)) as [d |]; [| reflexivity].
  apply Z.leb_le in Hc. rewrite Hc. reflexivity.
Qed.

(** One turn of the loop on a digit: the accumulator advances exactly
    when the new value still fits 64 bits; both overflow tests of the
    code together detect every other case. *)
Lemma parseLoop_digit (s0 : string) (n : Z) (c : ascii) (s : string) :
  is_digit c = true ->
  0 <= n <= maxUint64 ->
  parseLoop s0 n (String c s) =
    if 10 * n + (byte_of_ascii c - 48) <=? maxUint64
    then parseLoop s0 (10 * n + (byte_of_ascii c - 48)) s
    else (maxVal, Some (rangeError fnParseUint s0)).
Proof.
  intros Hc Hn. apply digit_of_digit in Hc as [Hd Hrange].
  simpl. rewrite Hd. set (d := byte_of_ascii c - 48) in *.
  assert ((base <=? d) = false) as -> by (apply Z.leb_gt; unfold base; lia).
  rewrite cutoff_eq, maxVal_eq. unfold base.
  destruct (Z.leb_spec 1844674407370955162 n) as [Hcut | Hcut].
  - assert ((10 * n + d <=? maxUint64) = false) as ->
      by (apply Z.leb_gt; unfold maxUint64; lia).
    reflexivity.
  - rewrite (uint64_small (n * 10)) by (unfold maxUint64; lia).
    destruct (Z.leb_spec (10 * n + d) maxUint64) as [Hfit | Hover].
    + rewrite uint64_small by lia.
      assert ((n * 10 + d <? n * 10) = false) as -> by (apply Z.ltb_ge; lia).
      assert ((maxUint64 <? n * 10 + d) = false) as -> by (apply Z.ltb_ge; lia).
      simpl. f_equal. lia.
    + rewrite uint64_wrap by (unfold maxUint64 in *; lia).
      assert ((n * 10 + d - (maxUint64 + 1) <? n * 10) = true) as ->
        by (apply Z.ltb_lt; unfold maxUint64 in *; lia).
      reflexivity.
Qed.

Lemma value_from_ge (s : string) (n : Z) :
  all_digits s = true -> 0 <= n -> n <= value_from n s.
Proof.
  revert n. induction s as [| c s IH]; intros n Hs Hn; simpl in *; [lia |].
  apply andb_prop in Hs as [Hc Hs].
  apply digit_of_digit in Hc as [_ Hd].
  specialize (IH (10 * n + (byte_of_ascii c - 48)) Hs). lia.
Qed.

(** The loop returns the denoted value when it fits 64 bits. *)
Lemma parseLoop_accepts (s0 s : string) (n : Z) :
  all_digits s = true -> 0 <= n -> value_from n s <= maxUint64 ->
  parseLoop s0 n s = (value_from n s, None).
Proof.
  revert n. induction s as [| c s IH]; intros n Hs Hn Hmax; [reflexivity |].
  simpl in Hs, Hmax. apply andb_prop in Hs as [Hc Hs].
  pose proof (digit_of_digit c Hc) as [_ Hd].
  pose proof (value_from_ge s (10 * n + (byte_of_ascii c - 48)) Hs) as Hge.
  rewrite parseLoop_digit by (auto; lia).
  assert ((10 * n + (byte_of_ascii c - 48) <=? maxUint64) = true) as ->
    by (apply Z.leb_le; lia).
  rewrite IH by (auto; lia). reflexivity.
Qed.

(** The loop fails, with a syntax or a range error about the whole input,
    on a character that is no digit and on a value beyond 64 bits. *)
Lemma parseLoop_rejects (s0 s : string) (n : Z) :
  0 <= n <= maxUint64 ->
  all_digits s = false \/ maxUint64 < value_from n s ->
  exists v cause,
    parseLoop s0 n s = (v, Some (NumError fnParseUint s0 cause))
    /\ (cause = ErrSyntax \/ cause = ErrRange).
Proof.
  revert n. induction s as [| c s IH]; intros n Hn Hbad.
  - simpl in Hbad. destruct Hbad as [Hbad | Hbad]; [discriminate | lia].
  - destruct (is_digit c) eqn:Hc.
    + rewrite parseLoop_digit by auto.
      pose proof (digit_of_digit c Hc) as [_ Hd].
      destruct (Z.leb_spec (10 * n + (byte_of_ascii c - 48)) maxUint64)
        as [Hfit | Hover].
      * apply IH; [lia |]. simpl in Hbad. rewrite Hc in Hbad. exact Hbad.
      * exists maxVal, ErrRange. split; [reflexivity | right; reflexivity].
    + rewrite parseLoop_other by auto.
      exists 0, ErrSyntax. split; [reflexivity | left; reflexivity].
Qed.

Lemma ParseUint_accepts (s : string) (v : Z) :
  denotes s v -> v <= maxUint64 -> ParseUint s = (v, None).
Proof.
  intros [[Hne Hs] Hv] Hmax. subst v. unfold ParseUint.
  destruct s as [| c s]; [congruence |].
  apply parseLoop_accepts; [exact Hs | lia | exact Hmax].
Qed.

Lemma ParseUint_rejects (s : string) :
  ~ (digit_string s /\ value s <= maxUint64) ->
  exists v cause,
    ParseUint s = (v, Some (NumError fnParseUint s cause))
    /\ (cause = ErrSyntax \/ cause = ErrRange).
Proof.
  intros Hbad. unfold ParseUint. destruct s as [| c s].
  - exists 0, ErrSyntax. split; [reflexivity | left; reflexivity].
  - apply parseLoop_rejects; [unfold maxUint64; lia |].
    destruct (all_digits (String c s)) eqn:Hs; [right | left; reflexivity].
    destruct (Z.le_gt_cases (value (String c s)) maxUint64) as [Hle | Hgt];
      [| exact Hgt].
    exfalso. apply Hbad. split; [split; [discriminate | exact Hs] | exact Hle].
Qed.

(** Whether a string is a numeral that fits 64 bits can be decided. *)
Lemma uint64_numeral_dec (s : string) :
  {digit_string s /\ value s <= maxUint64}
  + {~ (digit_string s /\ value s <= maxUint64)}.
Proof.
  destruct s as [| c s].
  - right. intros [[Hne _] _]. congruence.
  - destruct (all_digits (String c s)) eqn:Hs.
    + destruct (Z_le_gt_dec (value (String c s)) maxUint64) as [Hle | Hgt].
      * left. split; [split; [discriminate | exact Hs] | exact Hle].
      * right. intros [_ Hle]. lia.
    + right. intros [[_ Hs'] _]. congruence.
Qed.

End ParseUint.

(** ** The formatter against decimal numerals *)

Section Format.
Import fmt numeral.

Lemma append_empty_r (s : string) : (s ++ "")%string = s.
Proof.
  induction s as [| c s IH]; [reflexivity |].
  change (String c s ++ "")%string with (String c (s ++ "")%string).
  rewrite IH. reflexivity.
Qed.

Lemma digit_at_byte (u : Z) :
  0 <= u <= 9 -> byte_of_ascii (digit_at u) = 48 + u.
Proof.
  intros Hu.
  assert (u = 0 \/ u = 1 \/ u = 2 \/ u = 3 \/ u = 4 \/ u = 5 \/ u = 6
          \/ u = 7 \/ u = 8 \/ u = 9) as Hcases by lia.
  repeat (destruct Hcases as [-> | Hcases]; [reflexivity |]).
  subst u. reflexivity.
Qed.

(** The byte stored by one turn of the loop is the character of the last
    digit of [u]; the sum cannot wrap. *)
Lemma low_digit_byte (u : Z) :
  0 <= u ->
  byte_of_ascii (ascii_of_byte (byte (uint64 (48 + u - u / 10 * 10))))
  = 48 + u mod 10.
Proof.
  intros Hu. pose proof (Z.mod_pos_bound u 10 ltac:(lia)) as Hr.
  replace (48 + u - u / 10 * 10) with (48 + u mod 10)
    by (rewrite (Z.mod_eq u 10); lia).
  rewrite uint64_small by (unfold maxUint64; lia).
  rewrite byte_small by lia.
  apply byte_of_ascii_of_byte. lia.
Qed.

Lemma is_digit_byte (c : ascii) (r : Z) :
  byte_of_ascii c = 48 + r -> 0 <= r <= 9 -> is_digit c = true.
Proof.
  intros Hc Hr. unfold is_digit. rewrite Hc.
  apply andb_true_intro. split; apply Z.leb_le; lia.
Qed.

(** Reading back what the loop wrote in front of [buf] is reading [buf]
    from [u] on. *)
Lemma fmtDigits_value (i : nat) (u : Z) (buf : string) :
  0 <= u < 10 ^ Z.of_nat i ->
  value_from 0 (fmtDigits i u buf) = value_from u buf.
Proof.
  revert u buf. induction i as [| i IH]; intros u buf Hu.
  - simpl in *. f_equal. lia.
  - rewrite Nat2Z.inj_succ, Z.pow_succ_r in Hu by lia. simpl.
    destruct (Z.leb_spec 10 u) as [Hbig | Hsmall].
    + rewrite IH.
      * simpl. rewrite low_digit_byte by lia. f_equal.
        rewrite (Z.mod_eq u 10) by lia. lia.
      * split; [apply Z.div_pos; lia |].
        apply Z.div_lt_upper_bound; lia.
    + simpl. rewrite digit_at_byte by lia. f_equal. lia.
Qed.

Lemma fmtDigits_all_digits (i : nat) (u : Z) (buf : string) :
  0 <= u -> all_digits (fmtDigits i u buf) = all_digits buf.
Proof.
  revert u buf. induction i as [| i IH]; intros u buf Hu; [reflexivity |].
  simpl. destruct (Z.leb_spec 10 u) as [Hbig | Hsmall].
  - rewrite IH by (apply Z.div_pos; lia). simpl.
    rewrite (is_digit_byte _ (u mod 10)); [reflexivity | |].
    + apply low_digit_byte. lia.
    + pose proof (Z.mod_pos_bound u 10 ltac:(lia)). lia.
  - simpl. rewrite (is_digit_byte _ u); [reflexivity | | lia].
    apply digit_at_byte. lia.
Qed.

Lemma fmtDigits_nonempty (i : nat) (u : Z) (buf : string) :
  i <> O \/ buf <> EmptyString -> fmtDigits i u buf <> EmptyString.
Proof.
  revert u buf. induction i as [| i IH]; intros u buf Hne.
  - simpl. destruct Hne as [Hne | Hne]; [congruence | exact Hne].
  - simpl. destruct (10 <=? u); [| discriminate].
    apply IH. right. discriminate.
Qed.

(** [%d] prints a decimal numeral of its operand. *)
Lemma fmtInteger_denotes (u : Z) :
  is_uint64 u -> denotes (fmtInteger u) u.
Proof.
  intros [Hlo Hhi]. unfold denotes, digit_string, fmtInteger, value.
  repeat split.
  - apply fmtDigits_nonempty. left. discriminate.
  - apply fmtDigits_all_digits. exact Hlo.
  - rewrite fmtDigits_value; [reflexivity |].
    split; [exact Hlo |]. unfold maxUint64 in Hhi.
    assert (18446744073709551615 < 10 ^ Z.of_nat intbufLen) by reflexivity.
    lia.
Qed.

(** The numeral has no leading zero, except for zero itself. *)
Lemma fmtDigits_head (i : nat) (u : Z) (buf : string) :
  0 < u < 10 ^ Z.of_nat i ->
  exists c s, fmtDigits i u buf = String c s /\ c <> "0"%char.
Proof.
  revert u buf. induction i as [| i IH]; intros u buf Hu.
  - simpl in Hu. lia.
  - rewrite Nat2Z.inj_succ, Z.pow_succ_r in Hu by lia. simpl.
    destruct (Z.leb_spec 10 u) as [Hbig | Hsmall].
    + apply IH. split.
      * apply Z.div_str_pos. lia.
      * apply Z.div_lt_upper_bound; lia.
    + eexists _, _. split; [reflexivity |].
      intros Hzero. pose proof (digit_at_byte u ltac:(lia)) as Hb.
      rewrite Hzero in Hb. change (byte_of_ascii "0") with 48 in Hb. lia.
Qed.

Lemma Sprintf_d (u : Z) : Sprintf "%d" [u] = fmtInteger u.
Proof.
  change (Sprintf "%d" [u]) with (fmtInteger u ++ "")%string.
  apply append_empty_r.
Qed.

(** Parsing what [%d] printed gives the operand back. *)
Lemma ParseUint_Sprintf (u : Z) :
  is_uint64 u -> strconv.ParseUint (Sprintf "%d" [u]) = (u, None).
Proof.
  intros Hu. rewrite Sprintf_d.
  apply ParseUint_accepts; [apply fmtInteger_denotes; exact Hu | apply Hu].
Qed.

End Format.

(** ** Map reads *)

Section Index.
Context {K : Type} `{Countable K} {V : Type}.

Lemma index_found (zero v : V) (m : gmap K V) (k : K) :
  m !! k = Some v -> index zero (Some m) k = (v, true).
Proof. intros Hk. unfold index. rewrite Hk. reflexivity. Qed.

Lemma index_missing (zero : V) (m : gmap K V) (k : K) :
  m !! k = None -> index zero (Some m) k = (zero, false).
Proof. intros Hk. unfold index. rewrite Hk. reflexivity. Qed.

End Index.

(** ** The accessor, step by step *)

Section Accessor.
Import schema unstructured objectpriority numeral.

Lemma index_annotation_found (u : Unstructured) (s : string) :
  annotation_at u Annotation = Some s ->
  index EmptyString (GetAnnotations u) Annotation = (s, true).
Proof.
  unfold annotation_at. destruct (GetAnnotations u) as [m |]; [| discriminate].
  apply index_found.
Qed.

Lemma index_annotation_missing (u : Unstructured) :
  annotation_at u Annotation = None ->
  index EmptyString (GetAnnotations u) Annotation = (EmptyString, false).
Proof.
  unfold annotation_at. destruct (GetAnnotations u) as [m |]; [| reflexivity].
  apply index_missing.
Qed.

(** What [ReadAnnotation] returns once the annotation is found, in terms of
    the parser's answer. *)
Lemma ReadAnnotation_found (u : Unstructured) (s : string) :
  annotation_at u Annotation = Some s ->
  (ReadAnnotation (Some u)).1 =
    match strconv.ParseUint s with
    | (_, Some err) => (0, Some (InvalidAnnotationError Annotation err))
    | (priority, None) =>
        if MaxPriority <? priority
        then (0, Some (InvalidAnnotationError Annotation
                         (errorString "priority higher than the maximum allowed: 1000000000")))
        else (priority, None)
    end.
Proof.
  intros Hs. unfold ReadAnnotation.
  rewrite (index_annotation_found u s Hs). simpl negb. cbv iota.
  unfold klog.bind, klog.Infof. cbn [fst snd].
  destruct (strconv.ParseUint s) as [priority [err |]]; [reflexivity |].
  destruct (MaxPriority <? priority); reflexivity.
Qed.

(** The trace of a read that found the annotation: one entry at level 5
    with the object's namespace and name and the raw annotation string. *)
Lemma ReadAnnotation_trace (u : Unstructured) (s : string) :
  annotation_at u Annotation = Some s ->
  (ReadAnnotation (Some u)).2 =
    [klog.mkEntry 5 "priority-level annotation found for %s/%s: %q"
                  [GetNamespace u; GetName u; s]].
Proof.
  intros Hs. unfold ReadAnnotation.
  rewrite (index_annotation_found u s Hs). simpl negb. cbv iota.
  unfold klog.bind, klog.Infof. cbn [fst snd].
  destruct (strconv.ParseUint s) as [priority [err |]]; [reflexivity |].
  destruct (MaxPriority <? priority); reflexivity.
Qed.

Lemma ReadAnnotation_missing (u : Unstructured) :
  annotation_at u Annotation = None ->
  ReadAnnotation (Some u) = klog.ret (0, None).
Proof.
  intros Hs. unfold ReadAnnotation.
  rewrite (index_annotation_missing u Hs). reflexivity.
Qed.

(** A numeral within the bound is read as the number it denotes. *)
Lemma ReadAnnotation_valid (u : Unstructured) (s : string) (v : Z) :
  annotation_at u Annotation = Some s ->
  denotes s v -> v <= MaxPriority ->
  (ReadAnnotation (Some u)).1 = (v, None).
Proof.
  intros Hs Hden Hv. rewrite (ReadAnnotation_found u s Hs).
  rewrite (ParseUint_accepts s v Hden) by (unfold MaxPriority, maxUint64 in *; lia).
  assert ((MaxPriority <? v) = false) as -> by (apply Z.ltb_ge; exact Hv).
  reflexivity.
Qed.

(** A numeral beyond the bound, but within 64 bits, is refused with the
    message that cites the maximum. *)
Lemma ReadAnnotation_too_large (u : Unstructured) (s : string) (v : Z) :
  annotation_at u Annotation = Some s ->
  denotes s v -> MaxPriority < v <= maxUint64 ->
  (ReadAnnotation (Some u)).1 =
    (0, Some (InvalidAnnotationError Annotation
                (errorString "priority higher than the maximum allowed: 1000000000"))).
Proof.
  intros Hs Hden [Hlo Hhi]. rewrite (ReadAnnotation_found u s Hs).
  rewrite (ParseUint_accepts s v Hden Hhi).
  assert ((MaxPriority <? v) = true) as -> by (apply Z.ltb_lt; exact Hlo).
  reflexivity.
Qed.

(** Anything that is not a numeral of a 64-bit number is refused with the
    parser's error as the cause. *)
Lemma ReadAnnotation_unparsable (u : Unstructured) (s : string) :
  annotation_at u Annotation = Some s ->
  ~ (digit_string s /\ value s <= maxUint64) ->
  exists cause,
    (ReadAnnotation (Some u)).1 =
      (0, Some (InvalidAnnotationError Annotation
                  (NumError strconv.fnParseUint s cause)))
    /\ (cause = strconv.ErrSyntax \/ cause = strconv.ErrRange).
Proof.
  intros Hs Hbad. rewrite (ReadAnnotation_found u s Hs).
  destruct (ParseUint_rejects s Hbad) as (v & cause & -> & Hcause).
  exists cause. split; [reflexivity | exact Hcause].
Qed.

(** The state [WriteAnnotation] leaves behind. *)
Lemma WriteAnnotation_some (obj : Unstructured) (p : Z) :
  WriteAnnotation (Some obj) p =
    (Some (SetAnnotations obj
             (Some (<[ Annotation := fmt.fmtInteger p ]>
                      (default ∅ (GetAnnotations obj))))),
     None).
Proof.
  unfold WriteAnnotation. rewrite Sprintf_d.
  destruct (GetAnnotations obj); reflexivity.
Qed.

Lemma annotation_at_written (obj : Unstructured) (a : gmap string string) (k : string) :
  annotation_at (SetAnnotations obj (Some a)) k = a !! k.
Proof. reflexivity. Qed.

(** The two outcomes of a read that found the annotation [s]: either [s] is
    a numeral within the bound and is returned as a number, or it is refused
    with one of three causes. *)
Lemma ReadAnnotation_cases (u : Unstructured) (s : string) :
  annotation_at u Annotation = Some s ->
  (denotes s (value s) /\ value s <= MaxPriority
   /\ (ReadAnnotation (Some u)).1 = (value s, None))
  \/ ((~ (digit_string s /\ value s <= maxUint64) \/ MaxPriority < value s)
      /\ exists cause,
           (ReadAnnotation (Some u)).1 =
             (0, Some (InvalidAnnotationError Annotation cause))
           /\ (cause = NumError strconv.fnParseUint s strconv.ErrSyntax
               \/ cause = NumError strconv.fnParseUint s strconv.ErrRange
               \/ cause = errorString
                    "priority higher than the maximum allowed: 1000000000")).
Proof.
  intros Hs.
  destruct (uint64_numeral_dec s) as [[Hdig Hfit] | Hbad].
  - destruct (Z_le_gt_dec (value s) MaxPriority) as [Hle | Hgt].
    + left. split; [split; [exact Hdig | reflexivity] |]. split; [exact Hle |].
      apply (ReadAnnotation_valid u s); [exact Hs | split; auto | exact Hle].
    + right. split; [right; lia |].
      eexists. split.
      * apply (ReadAnnotation_too_large u s (value s)); [exact Hs | split; auto | lia].
      * right. right. reflexivity.
  - right. split; [left; exact Hbad |].
    destruct (ReadAnnotation_unparsable u s Hs Hbad) as (cause & Hr & Hcause).
    eexists. split; [exact Hr |].
    destruct Hcause as [-> | ->]; [left | right; left]; reflexivity.
Qed.

(** A string with a character that is no digit is no digit string. *)
Lemma occurs_not_all_digits (c : ascii) (s : string) :
  occurs c s -> is_digit c = false -> all_digits s = false.
Proof.
  induction s as [| c' s IH]; simpl; [tauto |].
  intros [<- | Hin] Hc.
  - rewrite Hc. reflexivity.
  - rewrite (IH Hin Hc). apply andb_false_r.
Qed.

Lemma signs_blanks_separators_no_digit (c : ascii) :
  In c signs_blanks_separators -> is_digit c = false.
Proof.
  unfold signs_blanks_separators. simpl.
  intros Hin. repeat (destruct Hin as [<- | Hin]; [reflexivity |]).
  contradiction.
Qed.

Lemma written_once_eq (obj : Unstructured) (p : Z) :
  written_once obj p =
    Some (SetAnnotations obj
            (Some (<[ Annotation := fmt.fmtInteger p ]>
                     (default ∅ (GetAnnotations obj))))).
Proof. unfold written_once. rewrite WriteAnnotation_some. reflexivity. Qed.

(** After a write the priority-level key holds the printed priority. *)
Lemma written_once_annotation (obj : Unstructured) (p : Z) :
  exists obj',
    written_once obj p = Some obj'
    /\ annotation_at obj' Annotation = Some (fmt.fmtInteger p).
Proof.
  eexists. split; [apply written_once_eq |].
  rewrite annotation_at_written. apply lookup_insert_eq.
Qed.

(** Writing the same priority again changes nothing. *)
Lemma written_twice_eq (obj : Unstructured) (p : Z) :
  written_twice obj p = written_once obj p.
Proof.
  unfold written_twice. rewrite written_once_eq, WriteAnnotation_some.
  cbn [fst]. unfold SetAnnotations, GetAnnotations.
  cbn [groupVersionKind namespace name annotations from_option id].
  rewrite insert_insert_eq. reflexivity.
Qed.

End Accessor.

(** ** The claims about the accessor *)

Section Claims.
Import schema unstructured objectpriority numeral fixtures.

(** C1. On a non-nil object whose annotation map holds the priority-level
    key with string [s], [ReadAnnotation] returns an error exactly when [s]
    is no decimal numeral of a 64-bit unsigned number or the number exceeds
    [MaxPriority].  The error is always the invalid-annotation error for the
    priority-level key, with the parser's error or the "higher than the
    maximum" message as its cause, and the returned number is then 0.
    Otherwise the result is the number [s] denotes and no error.  The string
    1000000000 is read as 1000000000, the string 1000000001 is refused. *)
Theorem ReadAnnotation_error_iff (u : Unstructured) (s : string) :
  annotation_at u Annotation = Some s ->
  let r := (ReadAnnotation (Some u)).1 in
  (r.2 <> None <->
     ~ (digit_string s /\ value s <= maxUint64) \/ MaxPriority < value s)
  /\ (r.2 <> None ->
      exists cause,
        r = (0, Some (InvalidAnnotationError Annotation cause))
        /\ (cause = NumError strconv.fnParseUint s strconv.ErrSyntax
            \/ cause = NumError strconv.fnParseUint s strconv.ErrRange
            \/ cause = errorString
                         "priority higher than the maximum allowed: 1000000000"))
  /\ (r.2 = None -> denotes s r.1 /\ r = (value s, None))
  /\ (s = "1000000000"%string -> r = (1000000000, None))
  /\ (s = "1000000001"%string -> r.2 <> None).
Proof.
  intros Hs r.
  pose proof (ReadAnnotation_cases u s Hs) as Hcases. fold r in Hcases.
  assert (Hmax : s = "1000000000"%string -> r = (1000000000, None)).
  { intros ->. apply (ReadAnnotation_valid u "1000000000"); [exact Hs | | ].
    - split; [split; [discriminate | reflexivity] | reflexivity].
    - unfold MaxPriority. lia. }
  assert (Hnext : s = "1000000001"%string -> r.2 <> None).
  { intros ->. subst r.
    rewrite (ReadAnnotation_too_large u "1000000001" 1000000001 Hs).
    - discriminate.
    - split; [split; [discriminate | reflexivity] | reflexivity].
    - unfold MaxPriority, maxUint64. lia. }
  clearbody r.
  split; [split |]; [| | split; [| split; [| split]]].
  - intros Herr. destruct Hcases as [(_ & _ & Hr) | [Hbad _]]; [| exact Hbad].
    rewrite Hr in Herr. exfalso. apply Herr. reflexivity.
  - intros Hbad. destruct Hcases as [(Hden & Hle & _) | (_ & cause & Hr & _)].
    + exfalso. destruct Hbad as [Hbad | Hbad]; [| lia].
      apply Hbad. split; [apply Hden |]. unfold MaxPriority, maxUint64 in *. lia.
    + rewrite Hr. discriminate.
  - intros Herr. destruct Hcases as [(_ & _ & Hr) | (_ & Hex)]; [| exact Hex].
    rewrite Hr in Herr. exfalso. apply Herr. reflexivity.
  - intros Hok. destruct Hcases as [(Hden & _ & Hr) | (_ & cause & Hr & _)].
    + rewrite Hr. split; [exact Hden | reflexivity].
    + rewrite Hr in Hok. discriminate.
  - exact Hmax.
  - exact Hnext.
Qed.

Lemma ReadAnnotation_error_iff_witness :
  (ReadAnnotation (Some tooLargeAnnotation)).1.2 <> None
  /\ (ReadAnnotation (Some cm)).1 = (1, None).
Proof.
  split.
  - apply (ReadAnnotation_error_iff tooLargeAnnotation "1000000001");
      reflexivity.
  - pose proof (ReadAnnotation_error_iff cm "1" eq_refl) as (_ & _ & Hok & _).
    apply Hok. reflexivity.
Defined.

(** C2. [GetStaticPriority] returns (1000000001, true) for every object
    whose group and kind are the core group's Namespace or
    apiextensions.k8s.io's CustomResourceDefinition, and (0, false) for an
    object of any other group and kind and for a nil object.  The function
    only computes a result: it has no object state to return. *)
Theorem GetStaticPriority_table :
  GetStaticPriority None = (0, false)
  /\ forall u : Unstructured,
       let gk := GroupKindOf (GroupVersionKind u) in
       GetStaticPriority (Some u) =
         if decide (gk = mkGroupKind "" "Namespace"
                    \/ gk = mkGroupKind "apiextensions.k8s.io"
                                        "CustomResourceDefinition")
         then (1000000001, true)
         else (0, false).
Proof.
  split; [reflexivity |]. intros u gk.
  unfold GetStaticPriority. fold gk. unfold index, staticPriorities.
  destruct (decide _) as [[Hns | Hcrd] | Hother].
  - rewrite Hns. rewrite lookup_insert_eq. reflexivity.
  - rewrite Hcrd. rewrite lookup_insert_ne by discriminate.
    rewrite lookup_insert_eq. reflexivity.
  - rewrite lookup_insert_ne by (intros Heq; apply Hother; left; congruence).
    rewrite lookup_insert_ne by (intros Heq; apply Hother; right; congruence).
    rewrite lookup_empty. reflexivity.
Qed.

(** C9. [HasAnnotation] is false on a nil object; on any other object it is
    true exactly when the annotation map holds the priority-level key.  It
    returns a boolean only, so the object is as it was. *)
Theorem HasAnnotation_iff :
  HasAnnotation None = false
  /\ forall u : Unstructured,
       HasAnnotation (Some u) = true
       <-> exists s, annotation_at u Annotation = Some s.
Proof.
  split; [reflexivity |]. intros u.
  destruct (annotation_at u Annotation) as [s |] eqn:Hs.
  - unfold HasAnnotation. rewrite (index_annotation_found u s Hs).
    split; [eauto | reflexivity].
  - unfold HasAnnotation. rewrite (index_annotation_missing u Hs).
    split; [discriminate | intros [s Hsome]; discriminate].
Qed.

(** C4. [ReadAnnotation] returns 0 and no error, and traces nothing, both on
    a nil object and on an object whose annotation map lacks the
    priority-level key (an object with no annotation map included). *)
Theorem ReadAnnotation_absent (u : option Unstructured) :
  (u = None \/ exists obj, u = Some obj /\ annotation_at obj Annotation = None) ->
  ReadAnnotation u = klog.ret (0, None).
Proof.
  intros [-> | (obj & -> & Hnone)]; [reflexivity |].
  apply ReadAnnotation_missing. exact Hnone.
Qed.

Lemma ReadAnnotation_absent_witness :
  ReadAnnotation None = klog.ret (0, None)
  /\ ReadAnnotation (Some noAnnotations) = klog.ret (0, None)
  /\ ReadAnnotation (Some (configMap (Some ∅))) = klog.ret (0, None).
Proof.
  split; [| split].
  - apply ReadAnnotation_absent. left. reflexivity.
  - apply ReadAnnotation_absent. right. eexists. split; reflexivity.
  - apply ReadAnnotation_absent. right. eexists. split; reflexivity.
Defined.

(** C3. [WriteAnnotation] fails with the error "object is nil" on a nil
    object.  On any other object and any 64-bit priority it returns no
    error and leaves the object with an annotation map that is the old one,
    or an empty one if there was none, with the priority-level key set to
    the canonical decimal numeral of the priority. *)
Theorem WriteAnnotation_result (obj : Unstructured) (p : Z) :
  is_uint64 p ->
  WriteAnnotation None p = (None, Some (errorString "object is nil"))
  /\ exists s,
       denotes s p /\ canonical s
       /\ WriteAnnotation (Some obj) p =
            (Some (SetAnnotations obj
                     (Some (<[ Annotation := s ]>
                              (default ∅ (GetAnnotations obj))))),
             None)
       /\ (GetAnnotations obj = None ->
           WriteAnnotation (Some obj) p =
             (Some (SetAnnotations obj (Some {[ Annotation := s ]})), None)).
Proof.
  intros Hp. split; [reflexivity |].
  exists (fmt.fmtInteger p). split; [| split; [| split]].
  - apply fmtInteger_denotes. exact Hp.
  - destruct Hp as [Hlo Hhi].
    destruct (Z.eq_dec p 0) as [-> | Hnz]; [left; reflexivity | right].
    apply fmtDigits_head. split; [lia |].
    assert (maxUint64 < 10 ^ Z.of_nat fmt.intbufLen) by reflexivity. lia.
  - apply WriteAnnotation_some.
  - intros Hnil. rewrite WriteAnnotation_some, Hnil. reflexivity.
Qed.

Lemma WriteAnnotation_result_witness :
  exists s,
    denotes s 42 /\ canonical s
    /\ WriteAnnotation (Some noAnnotations) 42 =
         (Some (SetAnnotations noAnnotations
                  (Some (<[ Annotation := s ]>
                           (default ∅ (GetAnnotations noAnnotations))))),
          None)
    /\ (GetAnnotations noAnnotations = None ->
        WriteAnnotation (Some noAnnotations) 42 =
          (Some (SetAnnotations noAnnotations (Some {[ Annotation := s ]})), None)).
Proof.
  apply (WriteAnnotation_result noAnnotations 42).
  unfold is_uint64, maxUint64. lia.
Defined.

(** C5. On an object that starts with no annotation map at all, writing 42
    and then reading gives 42 and no error; more generally, on any object,
    writing a priority of at most [MaxPriority] succeeds and reading it back
    gives that priority and no error. *)
Theorem write_then_read :
  (forall obj : Unstructured,
     GetAnnotations obj = None ->
     (WriteAnnotation (Some obj) 42).2 = None
     /\ (ReadAnnotation (written_once obj 42)).1 = (42, None))
  /\ (forall (obj : Unstructured) (p : Z),
        0 <= p <= MaxPriority ->
        (WriteAnnotation (Some obj) p).2 = None
        /\ (ReadAnnotation (written_once obj p)).1 = (p, None)).
Proof.
  assert (Hgen : forall (obj : Unstructured) (p : Z),
             0 <= p <= MaxPriority ->
             (WriteAnnotation (Some obj) p).2 = None
             /\ (ReadAnnotation (written_once obj p)).1 = (p, None)).
  { intros obj p [Hlo Hhi]. split.
    - rewrite WriteAnnotation_some. reflexivity.
    - destruct (written_once_annotation obj p) as (obj' & -> & Hkey).
      apply (ReadAnnotation_valid obj' _ p Hkey); [| exact Hhi].
      apply fmtInteger_denotes. unfold is_uint64, MaxPriority, maxUint64 in *. lia. }
  split; [| exact Hgen].
  intros obj _. apply Hgen. unfold MaxPriority. lia.
Qed.

Lemma write_then_read_witness :
  GetAnnotations noAnnotations = None
  /\ (WriteAnnotation (Some noAnnotations) 42).2 = None
  /\ (ReadAnnotation (written_once noAnnotations 42)).1 = (42, None)
  /\ (ReadAnnotation (written_once cm 1000000000)).1 = (1000000000, None).
Proof.
  split; [reflexivity |].
  split; [apply (proj1 write_then_read noAnnotations eq_refl) |].
  split; [apply (proj1 write_then_read noAnnotations eq_refl) |].
  apply (proj2 write_then_read cm 1000000000). unfold MaxPriority. lia.
Defined.

(** C6. [WriteAnnotation] does not enforce the bound: for any object and any
    64-bit priority above [MaxPriority] it returns no error, and the read
    that follows fails with the invalid-annotation error whose cause cites
    the maximum. *)
Theorem write_unbounded_read_bounded (obj : Unstructured) (p : Z) :
  MaxPriority < p <= maxUint64 ->
  (WriteAnnotation (Some obj) p).2 = None
  /\ (ReadAnnotation (written_once obj p)).1 =
       (0, Some (InvalidAnnotationError Annotation
                   (errorString
                      "priority higher than the maximum allowed: 1000000000"))).
Proof.
  intros [Hlo Hhi]. split.
  - rewrite WriteAnnotation_some. reflexivity.
  - destruct (written_once_annotation obj p) as (obj' & -> & Hkey).
    apply (ReadAnnotation_too_large obj' _ p Hkey); [| split; assumption].
    apply fmtInteger_denotes. unfold is_uint64, MaxPriority in *. lia.
Qed.

Lemma write_unbounded_read_bounded_witness :
  (WriteAnnotation (Some cm) maxUint64).2 = None
  /\ (ReadAnnotation (written_once cm maxUint64)).1 =
       (0, Some (InvalidAnnotationError Annotation
                   (errorString
                      "priority higher than the maximum allowed: 1000000000"))).
Proof.
  apply (write_unbounded_read_bounded cm maxUint64).
  unfold MaxPriority, maxUint64. lia.
Defined.

(** C7. [ReadAnnotation] accepts exactly the nonempty strings of decimal
    digits that denote a number from 0 to 1000000000, and returns that
    number.  A string with any character that is no digit, in particular a
    sign (a leading plus included), a blank or a separator, is refused with
    the invalid-annotation error. *)
Theorem ReadAnnotation_accepts_exactly (u : Unstructured) (s : string) :
  annotation_at u Annotation = Some s ->
  ((ReadAnnotation (Some u)).1.2 = None
   <-> digit_string s /\ 0 <= value s <= 1000000000)
  /\ (digit_string s -> 0 <= value s <= 1000000000 ->
      (ReadAnnotation (Some u)).1 = (value s, None))
  /\ (forall c : ascii,
        occurs c s ->
        is_digit c = false \/ In c signs_blanks_separators ->
        exists cause,
          (ReadAnnotation (Some u)).1 =
            (0, Some (InvalidAnnotationError Annotation cause))).
Proof.
  intros Hs.
  assert (Hvalid : digit_string s -> 0 <= value s <= 1000000000 ->
                   (ReadAnnotation (Some u)).1 = (value s, None)).
  { intros Hdig [_ Hle].
    apply (ReadAnnotation_valid u s); [exact Hs | split; auto | exact Hle]. }
  split; [split |]; [| | split].
  - intros Hok.
    destruct (ReadAnnotation_cases u s Hs)
      as [([Hdig _] & Hle & _) | (_ & cause & Hr & _)].
    + split; [exact Hdig |]. split; [| exact Hle].
      apply (value_from_ge s 0); [apply Hdig | lia].
    + rewrite Hr in Hok. discriminate.
  - intros [Hdig Hrange]. rewrite (Hvalid Hdig Hrange). reflexivity.
  - exact Hvalid.
  - intros c Hin Hc.
    assert (Hno : is_digit c = false).
    { destruct Hc as [Hc | Hc]; [exact Hc |].
      apply signs_blanks_separators_no_digit. exact Hc. }
    pose proof (occurs_not_all_digits c s Hin Hno) as Hbad.
    destruct (ReadAnnotation_cases u s Hs)
      as [([[_ Hdig] _] & _) | (_ & cause & Hr & _)].
    + congruence.
    + exists cause. exact Hr.
Qed.

Lemma ReadAnnotation_accepts_exactly_witness :
  (exists cause,
     (ReadAnnotation (Some negativeAnnotation)).1 =
       (0, Some (InvalidAnnotationError Annotation cause)))
  /\ (ReadAnnotation (Some cm)).1 = (1, None).
Proof.
  split.
  - destruct (ReadAnnotation_accepts_exactly negativeAnnotation "-1" eq_refl)
      as (_ & _ & Hrej).
    apply (Hrej "-"%char).
    + left. reflexivity.
    + right. right. left. reflexivity.
  - apply (ReadAnnotation_accepts_exactly cm "1" eq_refl).
    + split; [discriminate | reflexivity].
    + change (value "1") with 1. lia.
Defined.

(** C8, as stated, fails: after writing 1000000001 twice, the read does not
    return 1000000001 but the invalid-annotation error. *)
Lemma write_twice_read_counterexample :
  is_uint64 1000000001
  /\ (ReadAnnotation (written_twice noAnnotations 1000000001)).1 =
       (0, Some (InvalidAnnotationError Annotation
                   (errorString
                      "priority higher than the maximum allowed: 1000000000")))
  /\ (ReadAnnotation (written_twice noAnnotations 1000000001)).1
     <> (1000000001, None).
Proof.
  split; [unfold is_uint64, maxUint64; lia |].
  split; [reflexivity | discriminate].
Qed.

(** C8, amended.  For every object and every 64-bit priority [p], a second
    [WriteAnnotation] with the same [p] returns no error and leaves the
    object exactly as the first call left it, so a read gives the same
    result after either; that result is [p] and no error whenever [p] is at
    most [MaxPriority]. *)
Theorem write_twice_idempotent (obj : Unstructured) (p : Z) :
  is_uint64 p ->
  (WriteAnnotation (written_once obj p) p).2 = None
  /\ written_twice obj p = written_once obj p
  /\ ReadAnnotation (written_twice obj p) = ReadAnnotation (written_once obj p)
  /\ (p <= MaxPriority ->
      (ReadAnnotation (written_twice obj p)).1 = (p, None)).
Proof.
  intros [Hlo Hhi]. split; [| split; [| split]].
  - rewrite written_once_eq, WriteAnnotation_some. reflexivity.
  - apply written_twice_eq.
  - rewrite written_twice_eq. reflexivity.
  - intros Hle. rewrite written_twice_eq.
    destruct (written_once_annotation obj p) as (obj' & -> & Hkey).
    apply (ReadAnnotation_valid obj' _ p Hkey); [| exact Hle].
    apply fmtInteger_denotes. split; assumption.
Qed.

Lemma write_twice_idempotent_witness :
  written_twice cm 7 = written_once cm 7
  /\ (ReadAnnotation (written_twice cm 7)).1 = (7, None).
Proof.
  assert (Hp : is_uint64 7) by (unfold is_uint64, maxUint64; lia).
  destruct (write_twice_idempotent cm 7 Hp) as (_ & Hsame & _ & Hread).
  split; [exact Hsame |]. apply Hread. unfold MaxPriority. lia.
Defined.

(** C10. On a non-nil object [WriteAnnotation] touches the priority-level
    entry of the annotation map and nothing else: every other key of the
    map reads as before, and the object's group, version and kind, its
    namespace and its name are unchanged. *)
Theorem WriteAnnotation_frame (obj : Unstructured) (p : Z) (k : string) :
  k <> Annotation ->
  exists obj',
    WriteAnnotation (Some obj) p = (Some obj', None)
    /\ annotation_at obj' k = annotation_at obj k
    /\ obj' = SetAnnotations obj (GetAnnotations obj')
    /\ GroupVersionKind obj' = GroupVersionKind obj
    /\ GetNamespace obj' = GetNamespace obj
    /\ GetName obj' = GetName obj.
Proof.
  intros Hk. eexists. split; [apply WriteAnnotation_some |].
  split; [| repeat split].
  rewrite annotation_at_written.
  rewrite lookup_insert_ne by congruence.
  unfold annotation_at. destruct (GetAnnotations obj); [reflexivity |].
  apply lookup_empty.
Qed.

Lemma WriteAnnotation_frame_witness :
  exists obj',
    WriteAnnotation (Some (configMap (Some {[ "owner" := "team-a" ]}))) 5
    = (Some obj', None)
    /\ annotation_at obj' "owner" = Some "team-a"
    /\ GetName obj' = "unused".
Proof.
  destruct (WriteAnnotation_frame
              (configMap (Some {[ "owner" := "team-a" ]})) 5 "owner")
    as (obj' & Hw & Hk & _ & _ & _ & Hname); [discriminate |].
  exists obj'. split; [exact Hw |]. split; [| exact Hname].
  rewrite Hk. reflexivity.
Defined.

(** ** The cases of [annotation_test.go] *)

Example TestReadAnnotation :
  (ReadAnnotation None).1 = (0, None)
  /\ (ReadAnnotation (Some noAnnotations)).1 = (0, None)
  /\ (ReadAnnotation (Some negativeAnnotation)).1.2 <> None
  /\ (ReadAnnotation (Some tooLargeAnnotation)).1.2 <> None
  /\ (ReadAnnotation (Some cm)).1 = (1, None).
Proof.
  split; [reflexivity |]. split; [reflexivity |].
  split; [discriminate |]. split; [discriminate | reflexivity].
Qed.

Example TestGetStaticPriority :
  GetStaticPriority None = (0, false)
  /\ GetStaticPriority (Some cm) = (0, false)
  /\ GetStaticPriority (Some ns) = (1000000001, true)
  /\ GetStaticPriority (Some crd) = (1000000001, true).
Proof.
  split; [reflexivity |]. split; [reflexivity |].
  split; reflexivity.
Qed.

End Claims.

(** * Further properties of the accessor *)

(** ** Numerals: positional value and uniqueness of the canonical form *)

Section Positional.
Import numeral.

Lemma byte_of_ascii_inj (c c' : ascii) :
  byte_of_ascii c = byte_of_ascii c' -> c = c'.
Proof.
  unfold byte_of_ascii. intros Heq.
  rewrite <- (ascii_N_embedding c), <- (ascii_N_embedding c').
  f_equal. lia.
Qed.

(** The value read from [n] on is [n] shifted by the length of the string,
    plus the value of the string. *)
Lemma value_from_shift (s : string) (n : Z) :
  value_from n s = n * 10 ^ Z.of_nat (String.length s) + value s.
Proof.
  unfold value. revert n. induction s as [| c s IH]; intros n.
  - simpl. lia.
  - cbn [value_from String.length].
    rewrite Nat2Z.inj_succ, Z.pow_succ_r by lia.
    rewrite (IH (10 * n + (byte_of_ascii c - 48))).
    rewrite (IH (10 * 0 + (byte_of_ascii c - 48))). lia.
Qed.

Lemma value_cons (c : ascii) (s : string) :
  value (String c s)
  = (byte_of_ascii c - 48) * 10 ^ Z.of_nat (String.length s) + value s.
Proof.
  unfold value at 1. cbn [value_from]. rewrite value_from_shift. lia.
Qed.

Lemma value_range (s : string) :
  all_digits s = true -> 0 <= value s < 10 ^ Z.of_nat (String.length s).
Proof.
  induction s as [| c s IH]; intros Hs.
  - unfold value. simpl. lia.
  - simpl in Hs. apply andb_prop in Hs as [Hc Hs].
    apply digit_of_digit in Hc as [_ Hd]. specialize (IH Hs).
    rewrite value_cons. cbn [String.length].
    rewrite Nat2Z.inj_succ, Z.pow_succ_r by lia. nia.
Qed.

(** Digit strings of one length with one value are one string. *)
Lemma value_inj_length (s t : string) :
  String.length s = String.length t ->
  all_digits s = true -> all_digits t = true ->
  value s = value t -> s = t.
Proof.
  revert t. induction s as [| c s IH]; intros [| c' t] Hlen Hs Ht Hv;
    try discriminate; [reflexivity |].
  simpl in Hlen, Hs, Ht. injection Hlen as Hlen.
  apply andb_prop in Hs as [Hc Hs]. apply andb_prop in Ht as [Hc' Ht].
  apply digit_of_digit in Hc as [_ Hd]. apply digit_of_digit in Hc' as [_ Hd'].
  rewrite !value_cons, <- Hlen in Hv.
  pose proof (value_range s Hs) as Hrs.
  pose proof (value_range t Ht) as Hrt. rewrite <- Hlen in Hrt.
  assert (Hdigit : byte_of_ascii c - 48 = byte_of_ascii c' - 48) by nia.
  assert (Hrest : value s = value t) by nia.
  f_equal.
  - apply byte_of_ascii_inj. lia.
  - apply IH; assumption.
Qed.

(** A digit string that does not start with the digit 0 is at least the
    power of ten of its remaining length. *)
Lemma value_lower (c : ascii) (s : string) :
  all_digits (String c s) = true -> c <> "0"%char ->
  10 ^ Z.of_nat (String.length s) <= value (String c s).
Proof.
  intros Hs Hc. simpl in Hs. apply andb_prop in Hs as [Hdig Hs].
  apply digit_of_digit in Hdig as [_ Hd].
  assert (byte_of_ascii c - 48 <> 0) as Hnz.
  { intros Hz. apply Hc. apply byte_of_ascii_inj.
    change (byte_of_ascii "0") with 48. lia. }
  pose proof (value_range s Hs) as Hr. rewrite value_cons. nia.
Qed.

(** Two canonical numerals of one number are one string. *)
Lemma canonical_unique (s t : string) :
  all_digits s = true -> all_digits t = true ->
  canonical s -> canonical t ->
  value s = value t -> s = t.
Proof.
  intros Hs Ht [-> | (c & s' & -> & Hc)] [-> | (c' & t' & -> & Hc')] Hv.
  - reflexivity.
  - pose proof (value_lower c' t' Ht Hc') as Hlow.
    pose proof (Z.pow_pos_nonneg 10 (Z.of_nat (String.length t'))
                  ltac:(lia) ltac:(lia)).
    change (value "0") with 0 in Hv. lia.
  - pose proof (value_lower c s' Hs Hc) as Hlow.
    pose proof (Z.pow_pos_nonneg 10 (Z.of_nat (String.length s'))
                  ltac:(lia) ltac:(lia)).
    change (value "0") with 0 in Hv. lia.
  - apply value_inj_length; try assumption.
    pose proof (value_lower c s' Hs Hc) as Hls.
    pose proof (value_lower c' t' Ht Hc') as Hlt.
    pose proof (value_range _ Hs) as Hrs.
    pose proof (value_range _ Ht) as Hrt.
    cbn [String.length] in *.
    rewrite Nat2Z.inj_succ, Z.pow_succ_r in Hrs, Hrt by lia.
    f_equal.
    destruct (Nat.lt_trichotomy (String.length s') (String.length t'))
      as [Hlt' | [Heq | Hgt']]; [exfalso | exact Heq | exfalso].
    + assert (10 ^ Z.of_nat (S (String.length s'))
              <= 10 ^ Z.of_nat (String.length t'))
        by (apply Z.pow_le_mono_r; lia).
      rewrite Nat2Z.inj_succ, Z.pow_succ_r in * by lia. lia.
    + assert (10 ^ Z.of_nat (S (String.length t'))
              <= 10 ^ Z.of_nat (String.length s'))
        by (apply Z.pow_le_mono_r; lia).
      rewrite Nat2Z.inj_succ, Z.pow_succ_r in * by lia. lia.
Qed.

Lemma fmtInteger_canonical (u : Z) :
  is_uint64 u -> canonical (fmt.fmtInteger u).
Proof.
  intros [Hlo Hhi].
  destruct (Z.eq_dec u 0) as [-> | Hnz]; [left; reflexivity | right].
  apply fmtDigits_head. split; [lia |].
  assert (maxUint64 < 10 ^ Z.of_nat fmt.intbufLen) by reflexivity. lia.
Qed.

(** Printing the value of a canonical numeral gives the numeral back. *)
Lemma fmtInteger_value (s : string) :
  digit_string s -> canonical s -> value s <= maxUint64 ->
  fmt.fmtInteger (value s) = s.
Proof.
  intros [Hne Hs] Hcan Hmax.
  assert (Hu : is_uint64 (value s)).
  { split; [| exact Hmax]. apply (value_range s Hs). }
  destruct (fmtInteger_denotes (value s) Hu) as [[_ Hdig] Hval].
  apply canonical_unique; auto using fmtInteger_canonical.
Qed.

End Positional.

(** ** Which error the parser reports *)

Section ParseCauses.
Import strconv numeral.

Lemma append_cons (c : ascii) (s t : string) :
  (String c s ++ t)%string = String c (s ++ t)%string.
Proof. reflexivity. Qed.

(** Digits whose value leaves 64 bits end the loop with a range error,
    whatever follows them. *)
Lemma parseLoop_overflow (s0 pre rest : string) (n : Z) :
  all_digits pre = true -> 0 <= n <= maxUint64 ->
  maxUint64 < value_from n pre ->
  parseLoop s0 n (pre ++ rest) = (maxVal, Some (rangeError fnParseUint s0)).
Proof.
  revert n. induction pre as [| c pre IH]; intros n Hpre Hn Hover.
  - simpl in Hover. lia.
  - simpl in Hpre, Hover. apply andb_prop in Hpre as [Hc Hpre].
    pose proof (digit_of_digit c Hc) as [_ Hd].
    rewrite append_cons, parseLoop_digit by assumption.
    destruct (Z.leb_spec (10 * n + (byte_of_ascii c - 48)) maxUint64)
      as [Hfit | _]; [| reflexivity].
    apply IH; [exact Hpre | lia | exact Hover].
Qed.

(** Digits that fit 64 bits followed by a character that is no digit end
    the loop with a syntax error. *)
Lemma parseLoop_syntax (s0 pre rest : string) (c : ascii) (n : Z) :
  all_digits pre = true -> 0 <= n -> value_from n pre <= maxUint64 ->
  is_digit c = false ->
  parseLoop s0 n (pre ++ String c rest) = (0, Some (syntaxError fnParseUint s0)).
Proof.
  revert n. induction pre as [| c' pre IH]; intros n Hpre Hn Hfit Hc.
  - apply parseLoop_other. exact Hc.
  - simpl in Hpre, Hfit. apply andb_prop in Hpre as [Hc' Hpre].
    pose proof (digit_of_digit c' Hc') as [_ Hd].
    pose proof (value_from_ge pre (10 * n + (byte_of_ascii c' - 48)) Hpre) as Hge.
    rewrite append_cons, parseLoop_digit by (auto; lia).
    assert ((10 * n + (byte_of_ascii c' - 48) <=? maxUint64) = true) as ->
      by (apply Z.leb_le; lia).
    apply IH; [exact Hpre | lia | exact Hfit | exact Hc].
Qed.

Lemma ParseUint_overflow (pre rest : string) :
  all_digits pre = true -> maxUint64 < value pre ->
  ParseUint (pre ++ rest) =
    (maxVal, Some (rangeError fnParseUint (pre ++ rest))).
Proof.
  intros Hpre Hover. destruct pre as [| c pre].
  - unfold value in Hover. simpl in Hover. unfold maxUint64 in Hover. lia.
  - rewrite append_cons. unfold ParseUint. rewrite <- append_cons.
    apply parseLoop_overflow; [exact Hpre | unfold maxUint64; lia | exact Hover].
Qed.

Lemma ParseUint_syntax (pre rest : string) (c : ascii) :
  all_digits pre = true -> value pre <= maxUint64 -> is_digit c = false ->
  ParseUint (pre ++ String c rest) =
    (0, Some (syntaxError fnParseUint (pre ++ String c rest))).
Proof.
  intros Hpre Hfit Hc.
  assert (Hloop : parseLoop (pre ++ String c rest) 0 (pre ++ String c rest)
                  = (0, Some (syntaxError fnParseUint (pre ++ String c rest))))
    by (apply parseLoop_syntax; [exact Hpre | lia | exact Hfit | exact Hc]).
  destruct pre as [| c' pre]; exact Hloop.
Qed.

End ParseCauses.

(** ** More about reads, writes and the table *)

Section AccessorMore.
Import schema unstructured objectpriority numeral.

(** A read that returns no error found a numeral within the bound, or found
    nothing and returned 0. *)
Lemma ReadAnnotation_accepted (u : Unstructured) (s : string) (v : Z) :
  annotation_at u Annotation = Some s ->
  (ReadAnnotation (Some u)).1 = (v, None) ->
  denotes s v /\ 0 <= v <= MaxPriority.
Proof.
  intros Hs Hr.
  destruct (ReadAnnotation_cases u s Hs)
    as [(Hden & Hle & Hok) | (_ & cause & Herr & _)].
  - rewrite Hok in Hr. injection Hr as <-.
    split; [exact Hden |]. split; [| exact Hle].
    apply (value_range s). apply Hden.
  - rewrite Herr in Hr. discriminate.
Qed.

Lemma ReadAnnotation_outcomes (u : option Unstructured) :
  (exists v, 0 <= v <= MaxPriority /\ (ReadAnnotation u).1 = (v, None))
  \/ (exists cause,
        (ReadAnnotation u).1 = (0, Some (InvalidAnnotationError Annotation cause))).
Proof.
  destruct u as [u |].
  - destruct (annotation_at u Annotation) as [s |] eqn:Hs.
    + destruct (ReadAnnotation_cases u s Hs)
        as [(Hden & Hle & Hok) | (_ & cause & Herr & _)].
      * left. exists (value s). split; [| exact Hok].
        split; [apply (value_range s); apply Hden | exact Hle].
      * right. exists cause. exact Herr.
    + left. exists 0. rewrite (ReadAnnotation_missing u Hs).
      split; [unfold MaxPriority; lia | reflexivity].
  - left. exists 0. split; [unfold MaxPriority; lia | reflexivity].
Qed.

(** The table has one value only. *)
Lemma GetStaticPriority_values (u : option Unstructured) :
  GetStaticPriority u = (MaxPriority + 1, true)
  \/ GetStaticPriority u = (0, false).
Proof.
  destruct u as [u |]; [| right; reflexivity].
  unfold GetStaticPriority, index.
  destruct (staticPriorities !! GroupKindOf (GroupVersionKind u))
    as [pri |] eqn:Hlook; [left | right; reflexivity].
  unfold staticPriorities in Hlook.
  apply lookup_insert_Some in Hlook as [[_ <-] | [_ Hlook]]; [reflexivity |].
  apply lookup_insert_Some in Hlook as [[_ <-] | [_ Hlook]]; [reflexivity |].
  rewrite lookup_empty in Hlook. discriminate.
Qed.

Lemma SetAnnotations_same (u : Unstructured) :
  SetAnnotations u (GetAnnotations u) = u.
Proof. destruct u. reflexivity. Qed.

End AccessorMore.

(** ** Properties beyond the claims *)

Section Extras.
Import schema unstructured objectpriority numeral fixtures.

(** X1. Whatever the object (nil included), the number [ReadAnnotation]
    returns lies between 0 and [MaxPriority]; when it returns an error the
    number is 0 and the error is the invalid-annotation error for the
    priority-level key. *)
Theorem ReadAnnotation_result_range (u : option Unstructured) :
  0 <= (ReadAnnotation u).1.1 <= MaxPriority
  /\ ((ReadAnnotation u).1.2 <> None ->
      exists cause,
        (ReadAnnotation u).1 =
          (0, Some (InvalidAnnotationError Annotation cause))).
Proof.
  destruct (ReadAnnotation_outcomes u)
    as [(v & Hv & Hr) | (cause & Hr)]; rewrite Hr; cbn [fst snd].
  - split; [exact Hv |]. intros Herr. exfalso. apply Herr. reflexivity.
  - split; [unfold MaxPriority; lia |]. intros _. exists cause. reflexivity.
Qed.

(** X2. A static priority, when an object has one, is strictly greater than
    any priority that [ReadAnnotation] returns without error for any
    object. *)
Theorem static_priority_above_annotation
  (u u' : option Unstructured) (sp v : Z) :
  GetStaticPriority u = (sp, true) ->
  (ReadAnnotation u').1 = (v, None) ->
  v < sp.
Proof.
  intros Hstatic Hread.
  destruct (GetStaticPriority_values u) as [Hs | Hs];
    rewrite Hs in Hstatic; [| discriminate].
  injection Hstatic as <-.
  destruct (ReadAnnotation_outcomes u')
    as [(w & Hw & Hr) | (cause & Hr)]; rewrite Hr in Hread.
  - injection Hread as <-. lia.
  - discriminate.
Qed.

Lemma static_priority_above_annotation_witness : 1 < 1000000001.
Proof.
  apply (static_priority_above_annotation (Some ns) (Some cm));
    reflexivity.
Defined.

(** X3. [ReadAnnotation] makes its level-5 trace call exactly when the
    priority-level key is present, with the object's namespace and name and
    the raw string, whether or not the string is then accepted; on a nil
    object or a missing key it traces nothing. *)
Theorem ReadAnnotation_traces (u : option Unstructured) :
  (ReadAnnotation u).2 =
    match u with
    | None => []
    | Some obj =>
        match annotation_at obj Annotation with
        | Some s =>
            [klog.mkEntry 5 "priority-level annotation found for %s/%s: %q"
                          [GetNamespace obj; GetName obj; s]]
        | None => []
        end
    end.
Proof.
  destruct u as [obj |]; [| reflexivity].
  destruct (annotation_at obj Annotation) as [s |] eqn:Hs.
  - apply ReadAnnotation_trace. exact Hs.
  - rewrite (ReadAnnotation_missing obj Hs). reflexivity.
Qed.

(** X4. The last write wins: writing [p] and then [q] returns what writing
    [q] alone returns, and leaves the object in the same state. *)
Theorem WriteAnnotation_overwrites (obj : Unstructured) (p q : Z) :
  WriteAnnotation (written_once obj p) q = WriteAnnotation (Some obj) q.
Proof.
  rewrite written_once_eq, !WriteAnnotation_some.
  unfold SetAnnotations, GetAnnotations.
  cbn [groupVersionKind namespace name annotations from_option id].
  rewrite insert_insert_eq. reflexivity.
Qed.

(** X5. After [WriteAnnotation], [HasAnnotation] is true, for every
    priority; so an object on which 0 was written reads as (0, no error)
    like an object without the annotation, and [HasAnnotation] tells the
    two apart. *)
Theorem HasAnnotation_after_write (obj : Unstructured) (p : Z) :
  HasAnnotation (written_once obj p) = true
  /\ (ReadAnnotation (written_once obj 0)).1 = (0, None)
  /\ HasAnnotation (written_once obj 0) = true.
Proof.
  assert (Hhas : forall r, HasAnnotation (written_once obj r) = true).
  { intros r. destruct (written_once_annotation obj r) as (obj' & -> & Hkey).
    unfold HasAnnotation. rewrite (index_annotation_found obj' _ Hkey).
    reflexivity. }
  split; [apply Hhas |]. split; [| apply Hhas].
  destruct (written_once_annotation obj 0) as (obj' & -> & Hkey).
  apply (ReadAnnotation_valid obj' _ 0 Hkey).
  - split; [split; [discriminate | reflexivity] | reflexivity].
  - unfold MaxPriority. lia.
Qed.

(** X6. Leading zeros are accepted: if the string [s] is read as [v]
    without error, so is [s] with a digit 0 put in front. *)
Theorem ReadAnnotation_leading_zero
  (u u' : Unstructured) (s : string) (v : Z) :
  annotation_at u Annotation = Some s ->
  annotation_at u' Annotation = Some (String "0" s) ->
  (ReadAnnotation (Some u)).1 = (v, None) ->
  (ReadAnnotation (Some u')).1 = (v, None).
Proof.
  intros Hs Hs' Hr.
  destruct (ReadAnnotation_accepted u s v Hs Hr) as [[[_ Hdig] Hval] [_ Hle]].
  apply (ReadAnnotation_valid u' _ v Hs'); [| exact Hle].
  split; [split; [discriminate |] |].
  - cbn [all_digits]. rewrite Hdig. reflexivity.
  - rewrite value_cons. change (byte_of_ascii "0") with 48. lia.
Qed.

Lemma ReadAnnotation_leading_zero_witness :
  (ReadAnnotation (Some (configMap (Some {[ Annotation := "01"%string ]})))).1
  = (1, None).
Proof.
  apply (ReadAnnotation_leading_zero cm _ "1"); reflexivity.
Defined.

(** X7. Reading and writing back is the identity on canonical annotations:
    if the priority-level key holds a numeral without leading zeros and
    [ReadAnnotation] returns [v] without error, then [WriteAnnotation] with
    [v] returns no error and leaves the object exactly as it was. *)
Theorem read_then_write_identity (u : Unstructured) (s : string) (v : Z) :
  annotation_at u Annotation = Some s ->
  canonical s ->
  (ReadAnnotation (Some u)).1 = (v, None) ->
  WriteAnnotation (Some u) v = (Some u, None).
Proof.
  intros Hs Hcan Hr.
  destruct (ReadAnnotation_accepted u s v Hs Hr) as [[Hdig Hval] [_ Hle]].
  subst v.
  rewrite WriteAnnotation_some.
  rewrite (fmtInteger_value s Hdig Hcan)
    by (unfold MaxPriority, maxUint64 in *; lia).
  unfold annotation_at in Hs.
  destruct (GetAnnotations u) as [m |] eqn:Hget; [| discriminate].
  cbn [from_option id]. rewrite (insert_id m Annotation s Hs).
  rewrite <- Hget, SetAnnotations_same. reflexivity.
Qed.

Lemma read_then_write_identity_witness :
  WriteAnnotation (Some cm) 1 = (Some cm, None).
Proof.
  apply (read_then_write_identity cm "1").
  - reflexivity.
  - right. exists "1"%char, EmptyString. split; [reflexivity | discriminate].
  - reflexivity.
Defined.

(** X8. A string that starts with digits whose value leaves 64 bits is
    refused with the parser's range error as the cause, whatever follows
    the digits, and not with the "higher than the maximum" message. *)
Theorem ReadAnnotation_range_cause (u : Unstructured) (pre rest : string) :
  annotation_at u Annotation = Some (pre ++ rest)%string ->
  all_digits pre = true ->
  maxUint64 < value pre ->
  (ReadAnnotation (Some u)).1 =
    (0, Some (InvalidAnnotationError Annotation
                (NumError "ParseUint" (pre ++ rest)
                          (errorString "value out of range")))).
Proof.
  intros Hs Hpre Hover.
  rewrite (ReadAnnotation_found u _ Hs).
  rewrite (ParseUint_overflow pre rest Hpre Hover). reflexivity.
Qed.

Lemma ReadAnnotation_range_cause_witness :
  (ReadAnnotation
     (Some (configMap (Some {[ Annotation := "18446744073709551616 "%string ]})))).1
  = (0, Some (InvalidAnnotationError Annotation
                (NumError "ParseUint" "18446744073709551616 "
                          (errorString "value out of range")))).
Proof.
  apply (ReadAnnotation_range_cause _ "18446744073709551616" " ").
  - reflexivity.
  - reflexivity.
  - reflexivity.
Defined.

(** X9. The empty string, and a string whose first character that is no
    digit comes after digits that fit 64 bits (or at the very start), are
    refused with the parser's syntax error as the cause. *)
Theorem ReadAnnotation_syntax_cause (u : Unstructured) (s : string) :
  annotation_at u Annotation = Some s ->
  (s = EmptyString
   \/ exists pre c rest,
        s = (pre ++ String c rest)%string
        /\ all_digits pre = true /\ value pre <= maxUint64
        /\ is_digit c = false) ->
  (ReadAnnotation (Some u)).1 =
    (0, Some (InvalidAnnotationError Annotation
                (NumError "ParseUint" s (errorString "invalid syntax")))).
Proof.
  intros Hs Hshape. rewrite (ReadAnnotation_found u _ Hs).
  destruct Hshape as [-> | (pre & c & rest & -> & Hpre & Hfit & Hc)].
  - reflexivity.
  - rewrite (ParseUint_syntax pre rest c Hpre Hfit Hc). reflexivity.
Qed.

Lemma ReadAnnotation_syntax_cause_witness :
  (ReadAnnotation (Some negativeAnnotation)).1 =
    (0, Some (InvalidAnnotationError Annotation
                (NumError "ParseUint" "-1" (errorString "invalid syntax"))))
  /\ (ReadAnnotation (Some (configMap (Some {[ Annotation := ""%string ]})))).1 =
       (0, Some (InvalidAnnotationError Annotation
                   (NumError "ParseUint" "" (errorString "invalid syntax")))).
Proof.
  split.
  - apply (ReadAnnotation_syntax_cause negativeAnnotation "-1"); [reflexivity |].
    right. exists EmptyString, "-"%char, "1"%string.
    split; [reflexivity |]. split; [reflexivity |].
    split; [unfold value, maxUint64; simpl; lia | reflexivity].
  - apply ReadAnnotation_syntax_cause; [reflexivity | left; reflexivity].
Defined.

(** X10. Different 64-bit priorities leave different objects: the written
    annotation determines the priority. *)
Theorem WriteAnnotation_injective (obj : Unstructured) (p q : Z) :
  is_uint64 p -> is_uint64 q -> p <> q ->
  written_once obj p <> written_once obj q.
Proof.
  intros Hp Hq Hne Heq. apply Hne.
  rewrite !written_once_eq in Heq. injection Heq as Heq.
  assert (Hkey : (<[ Annotation := fmt.fmtInteger p ]>
                    (default ∅ (GetAnnotations obj)) : gmap string string)
                   !! Annotation
                 = (<[ Annotation := fmt.fmtInteger q ]>
                      (default ∅ (GetAnnotations obj)) : gmap string string)
                     !! Annotation)
    by (rewrite Heq; reflexivity).
  rewrite !lookup_insert_eq in Hkey. injection Hkey as Hkey.
  destruct (fmtInteger_denotes p Hp) as [_ <-].
  destruct (fmtInteger_denotes q Hq) as [_ <-].
  rewrite Hkey. reflexivity.
Qed.

Lemma WriteAnnotation_injective_witness :
  written_once cm 1 <> written_once cm 2.
Proof.
  apply WriteAnnotation_injective;
    unfold is_uint64, maxUint64; lia.
Defined.

End Extras.
